(** * Stop name encoder / decoder (stop_name_encoder.py)

    A bus stop's display name carries display flags as a prefix token and an
    optional ['!'] suffix.  This development embeds [decode_stop_name],
    [encode_stop_name] and [update_stop_name_from_ui] as Rocq functions and
    proves the properties the specification states about them.

    A Python [str] is modelled as a [string], the sequence of its characters;
    every character the codec inspects (['_'], ['!'], ['~'], ['@']) is ASCII.
    A Python [int] is modelled as [Z], a Python [bool] as [bool]. *)

From Stdlib Require Import String Ascii ZArith List Bool Lia.
Import ListNotations.

Local Open Scope string_scope.
Local Open Scope Z_scope.

(** ** Python string primitives used by the module *)

Module PyStr.

(** [s.startswith(t)] *)
Fixpoint startswith (s t : string) : bool :=
  match t, s with
  | EmptyString, _ => true
  | String _ _, EmptyString => false
  | String b t', String a s' => Ascii.eqb a b && startswith s' t'
  end.

(** [s.endswith(t)]: some tail of [s] is [t]. *)
Fixpoint endswith (s t : string) : bool :=
  if String.eqb s t then true
  else match s with
       | EmptyString => false
       | String _ s' => endswith s' t
       end.

(** [s[k:]] for a literal [k >= 0]. *)
Definition slice_from (k : nat) (s : string) : string :=
  substring k (String.length s - k) s.

(** [s[:-1]] *)
Definition slice_to_last (s : string) : string :=
  substring 0 (String.length s - 1) s.

(** [s.count(c)] for a one-character needle. *)
Fixpoint count (s : string) (c : ascii) : nat :=
  match s with
  | EmptyString => O
  | String a s' => if Ascii.eqb a c then S (count s' c) else count s' c
  end.

End PyStr.

Import PyStr.

(** ** Data model *)

(** class StopNameProperties *)
Record StopNameProperties : Type := mkProps {
  autoskip : bool;
  w8w6_different : bool;
  chi_pages : Z;
  eng_multiline : bool;
  base_name : string
}.

(** [StopNameProperties.__init__] *)
Definition StopNameProperties_init : StopNameProperties :=
  mkProps false false 1 false "".

Definition set_autoskip (v : bool) (p : StopNameProperties) :=
  mkProps v (w8w6_different p) (chi_pages p) (eng_multiline p) (base_name p).
Definition set_w8w6_different (v : bool) (p : StopNameProperties) :=
  mkProps (autoskip p) v (chi_pages p) (eng_multiline p) (base_name p).
Definition set_chi_pages (v : Z) (p : StopNameProperties) :=
  mkProps (autoskip p) (w8w6_different p) v (eng_multiline p) (base_name p).
Definition set_eng_multiline (v : bool) (p : StopNameProperties) :=
  mkProps (autoskip p) (w8w6_different p) (chi_pages p) v (base_name p).
Definition set_base_name (v : string) (p : StopNameProperties) :=
  mkProps (autoskip p) (w8w6_different p) (chi_pages p) (eng_multiline p) v.

(** ** The codec *)

(** [decode_stop_name]: the local variables [props] and [name] are threaded
    through the two [if] statements in the order of the source. *)
Definition decode_stop_name (stop_name : string) : StopNameProperties :=
  let props := StopNameProperties_init in
  let name := stop_name in
  let '(props, name) :=
    if endswith name "!" then
      (set_eng_multiline true props, slice_to_last name)
    else (props, name) in
  let '(props, name) :=
    if startswith name "_!~" then
      (set_chi_pages 3 (set_w8w6_different true (set_autoskip true props)),
       slice_from 3 name)
    else if startswith name "_~" then
      (set_chi_pages 2 (set_w8w6_different true (set_autoskip true props)),
       slice_from 2 name)
    else if startswith name "_!!" then
      (set_chi_pages 3 (set_autoskip true props), slice_from 3 name)
    else if startswith name "_!" then
      (set_chi_pages 2 (set_autoskip true props), slice_from 2 name)
    else if startswith name "!~" then
      (set_chi_pages 3 (set_w8w6_different true props), slice_from 2 name)
    else if startswith name "~" then
      (set_chi_pages 2 (set_w8w6_different true props), slice_from 1 name)
    else if startswith name "!!" then
      (set_chi_pages 3 props, slice_from 2 name)
    else if startswith name "!" then
      (set_chi_pages 2 props, slice_from 1 name)
    else if startswith name "_" then
      (set_autoskip true props, slice_from 1 name)
    else (props, name) in
  set_base_name name props.

(** [encode_stop_name] *)
Definition encode_stop_name (base_name : string) (autoskip w8w6_different : bool)
    (chi_pages eng_at_count : Z) : string :=
  let name := base_name in
  let prefix := "" in
  let prefix :=
    if w8w6_different then
      let prefix :=
        if chi_pages =? 2 then "~"
        else if chi_pages =? 3 then "!~"
        else prefix in
      if autoskip then "_" ++ prefix else prefix
    else
      let prefix :=
        if chi_pages =? 2 then "!"
        else if chi_pages =? 3 then "!!"
        else prefix in
      if autoskip then
        let prefix := "_" ++ prefix in
        if String.eqb prefix "_" then "_" else prefix
      else prefix in
  let suffix := "" in
  let suffix := if eng_at_count >? 2 then "!" else suffix in
  prefix ++ name ++ suffix.

(** [update_stop_name_from_ui] *)
Definition update_stop_name_from_ui (current_name : string)
    (autoskip w8w6_different : bool) (chi_pages : Z) (eng_display : string)
    : string :=
  let props := decode_stop_name current_name in
  let eng_at_count := Z.of_nat (count eng_display "@") in
  encode_stop_name (base_name props) autoskip w8w6_different chi_pages
    eng_at_count.

(** ** The specification's vocabulary *)

(** The prefix -> flags table of the specification, in matching priority
    order: token, then (autoskip, width_variant_split, chinese_pages). *)
Definition token_table : list (string * (bool * bool * Z)) :=
  [ ("_!~", (true,  true,  3));
    ("_~",  (true,  true,  2));
    ("_!!", (true,  false, 3));
    ("_!",  (true,  false, 2));
    ("!~",  (false, true,  3));
    ("~",   (false, true,  2));
    ("!!",  (false, false, 3));
    ("!",   (false, false, 2));
    ("_",   (true,  false, 1)) ].

Definition prefix_tokens : list string := map fst token_table.

(** [s] has no leading substring matching a recognized prefix token. *)
Definition no_leading_token (s : string) : bool :=
  forallb (fun t => negb (startswith s t)) prefix_tokens.

(** [s] has a trailing ['!']. *)
Definition trailing_bang (s : string) : bool := endswith s "!".

(** Decoding as the specification words it: strip one trailing ['!'], then
    take the first token of the priority list that is a prefix of the rest,
    assign its row of the table and remove it. *)
Definition decode_by_table (name : string) : StopNameProperties :=
  let multiline := endswith name "!" in
  let rest := if multiline then slice_to_last name else name in
  match find (fun row => startswith rest (fst row)) token_table with
  | Some (t, (a, w, c)) =>
      mkProps a w c multiline (slice_from (String.length t) rest)
  | None => mkProps false false 1 multiline rest
  end.

Definition flags_eqb (x y : bool * bool * Z) : bool :=
  let '(a, w, c) := x in
  let '(a', w', c') := y in
  Bool.eqb a a' && Bool.eqb w w' && (c =? c').

(** The token the table gives for a flag triple, empty when the triple is
    not a row of the table. *)
Definition token_of_flags (a w : bool) (c : Z) : string :=
  match find (fun row => flags_eqb (snd row) (a, w, c)) token_table with
  | Some (t, _) => t
  | None => ""
  end.

(** The table with its last row, "(none)": no token, all flags default. *)
Definition full_table : list (string * (bool * bool * Z)) :=
  token_table ++ [("", (false, false, 1))].

(** The suffix that records [english_multiline]. *)
Definition suffix_of (multiline : bool) : string :=
  if multiline then "!" else "".

(** ** The UI reader *)

(** The values a Python [dict] of this module holds. *)
Inductive PyValue : Type :=
  | PyBool (b : bool)
  | PyInt (z : Z)
  | PyStr (s : string).

(** A [dict] with string keys, in insertion order. *)
Definition PyDict : Type := list (string * PyValue).

(** [d.get(k)] *)
Fixpoint dict_get (d : PyDict) (k : string) : option PyValue :=
  match d with
  | [] => None
  | (k', v) :: d' => if String.eqb k' k then Some v else dict_get d' k
  end.

(** [get_ui_values_from_name]; [eng_display] defaults to the empty string in
    the source and is not read. *)
Definition get_ui_values_from_name (stop_name eng_display : string) : PyDict :=
  let props := decode_stop_name stop_name in
  [ ("autoskip", PyBool (autoskip props));
    ("w8w6_different", PyBool (w8w6_different props));
    ("chi_pages", PyInt (chi_pages props));
    ("base_name", PyStr (base_name props)) ].

(** The flag triples that have a row in the table, "(none)" included. *)
Definition table_flags : list (bool * bool * Z) := map snd full_table.

(** A name with its trailing ['!'], if any, removed. *)
Definition without_suffix (s : string) : string :=
  if endswith s "!" then slice_to_last s else s.

(** ** Proof automation *)

(** Decide the next test of the [if]/[elif] chain; a taken branch closes by
    computation. *)
Ltac first_branch :=
  match goal with
  | |- context [if startswith ?n ?t then _ else _] =>
      destruct (startswith n t); [reflexivity |]
  end.

(** Exhibit the row of the table whose token an encoding starts with. *)
Ltac pick_row :=
  let rec go l :=
    lazymatch l with
    | ?r :: ?l' =>
        first [ exists r; split; [cbn; tauto | intros; reflexivity] | go l' ]
    end in
  let rows := eval cbv [full_table token_table app] in full_table in
  go rows.

(** ** Facts about the string primitives *)

Section StringFacts.

Lemma append_nil_r (s : string) : s ++ "" = s.
Proof. induction s as [|c s IH]; simpl; [reflexivity | now rewrite IH]. Qed.

Lemma append_assoc (s t u : string) : (s ++ t) ++ u = s ++ (t ++ u).
Proof. induction s as [|c s IH]; simpl; [reflexivity | now rewrite IH]. Qed.

Lemma substring_0_length (s : string) : substring 0 (String.length s) s = s.
Proof. induction s as [|c s IH]; simpl; [reflexivity | now rewrite IH]. Qed.

Lemma slice_from_0 (s : string) : slice_from 0 s = s.
Proof.
  unfold slice_from. rewrite Nat.sub_0_r. apply substring_0_length.
Qed.

Lemma slice_from_S (k : nat) (c : ascii) (s : string) :
  slice_from (S k) (String c s) = slice_from k s.
Proof. reflexivity. Qed.

Lemma slice_from_app (t s : string) : slice_from (String.length t) (t ++ s) = s.
Proof.
  induction t as [|c t IH]; simpl.
  - apply slice_from_0.
  - rewrite slice_from_S. exact IH.
Qed.

Lemma startswith_nil (s : string) : startswith s "" = true.
Proof. destruct s; reflexivity. Qed.

Lemma startswith_app (t s : string) : startswith (t ++ s) t = true.
Proof.
  induction t as [|c t IH]; simpl.
  - apply startswith_nil.
  - now rewrite Ascii.eqb_refl, IH.
Qed.

Lemma startswith_split (t s : string) :
  startswith s t = true -> s = t ++ slice_from (String.length t) s.
Proof.
  revert s. induction t as [|c t IH]; intros s H.
  - simpl. now rewrite slice_from_0.
  - destruct s as [|a s]; simpl in H; [discriminate |].
    apply andb_true_iff in H. destruct H as [Hc Hs].
    apply Ascii.eqb_eq in Hc. subst a.
    simpl. rewrite slice_from_S. f_equal. now apply IH.
Qed.

Lemma endswith_cons_cons (c a : ascii) (r : string) :
  endswith (String c (String a r)) "!" = endswith (String a r) "!".
Proof.
  cbn [endswith String.eqb]. destruct (Ascii.eqb c "!"); reflexivity.
Qed.

Lemma endswith_app_nonempty (t : string) (a : ascii) (r : string) :
  endswith (t ++ String a r) "!" = endswith (String a r) "!".
Proof.
  induction t as [|c t IH]; [reflexivity |].
  destruct t as [|c' t]; cbn [append] in *; now rewrite endswith_cons_cons.
Qed.

Lemma endswith_app_bang (s : string) : endswith (s ++ "!") "!" = true.
Proof.
  induction s as [|c s IH]; [reflexivity |].
  destruct s as [|a s]; cbn [append] in *.
  - now rewrite endswith_cons_cons.
  - now rewrite endswith_cons_cons.
Qed.

Lemma slice_to_last_cons_cons (c a : ascii) (r : string) :
  slice_to_last (String c (String a r)) = String c (slice_to_last (String a r)).
Proof.
  unfold slice_to_last. cbn [String.length Nat.sub substring].
  now rewrite !Nat.sub_0_r.
Qed.

Lemma slice_to_last_app (s : string) (c : ascii) :
  slice_to_last (s ++ String c "") = s.
Proof.
  induction s as [|a s IH]; [reflexivity |].
  destruct s as [|b s]; cbn [append] in *.
  - reflexivity.
  - rewrite slice_to_last_cons_cons. now rewrite IH.
Qed.

Lemma endswith_split (s : string) :
  endswith s "!" = true -> s = slice_to_last s ++ "!".
Proof.
  induction s as [|c s IH]; intro H; [discriminate |].
  destruct s as [|a r].
  - cbn in H. destruct (Ascii.eqb_spec c "!"); [subst; reflexivity | discriminate].
  - rewrite endswith_cons_cons in H. rewrite slice_to_last_cons_cons.
    cbn [append]. f_equal. now apply IH.
Qed.

End StringFacts.

(** ** Decoding is table driven *)

Section DecodeFacts.

(** The [if]/[elif] chain of the source is a first-match search of the
    priority list. *)
Lemma decode_stop_name_by_table (s : string) :
  decode_stop_name s = decode_by_table s.
Proof.
  unfold decode_stop_name, decode_by_table.
  destruct (endswith s "!");
    cbn [find token_table fst];
    repeat first_branch; reflexivity.
Qed.

Lemma no_leading_token_inv (b : string) :
  no_leading_token b = true ->
  b = "" \/
  exists a r, b = String a r /\ Ascii.eqb a "_" = false
              /\ Ascii.eqb a "!" = false /\ Ascii.eqb a "~" = false.
Proof.
  destruct b as [|a r]; [now left |].
  unfold no_leading_token. rewrite forallb_forall. intro H.
  assert (Hone : forall c, In (String c "") prefix_tokens ->
                           Ascii.eqb a c = false).
  { intros c Hc. specialize (H _ Hc). cbn in H.
    rewrite startswith_nil, andb_true_r in H. now apply negb_true_iff. }
  right. exists a, r.
  repeat split; try reflexivity; apply Hone; cbn; tauto.
Qed.

(** On [t ++ b], with [t] a row's token and [b] free of leading tokens, the
    search stops at that row; with no token it runs to the end. *)
Lemma find_token_row (row : string * (bool * bool * Z)) (b : string) :
  In row full_table ->
  no_leading_token b = true ->
  find (fun r => startswith (fst row ++ b) (fst r)) token_table
  = if String.eqb (fst row) "" then None else Some row.
Proof.
  intros Hin Hb.
  apply no_leading_token_inv in Hb.
  destruct Hb as [-> | (a & r & -> & H1 & H2 & H3)].
  - cbn in Hin.
    repeat (destruct Hin as [<- | Hin]; [reflexivity |]). contradiction.
  - cbn in Hin.
    repeat (destruct Hin as [<- | Hin];
            [cbn; rewrite ?H1, ?H2, ?H3; reflexivity |]).
    contradiction.
Qed.

Lemma decode_row_plain (t : string) (a w : bool) (c : Z) (b : string) :
  In (t, (a, w, c)) full_table ->
  no_leading_token b = true ->
  endswith (t ++ b) "!" = false ->
  decode_stop_name (t ++ b) = mkProps a w c false b.
Proof.
  intros Hin Hb He.
  rewrite decode_stop_name_by_table. unfold decode_by_table.
  pose proof (find_token_row _ b Hin Hb) as Hf. cbn [fst] in Hf.
  rewrite He, Hf.
  destruct (String.eqb_spec t "") as [-> | Hne].
  - cbn in Hin.
    repeat (destruct Hin as [Hin | Hin]; [try discriminate Hin |]);
      [| contradiction].
    now inversion Hin.
  - now rewrite slice_from_app.
Qed.

Lemma decode_row_bang (t : string) (a w : bool) (c : Z) (b : string) :
  In (t, (a, w, c)) full_table ->
  no_leading_token b = true ->
  decode_stop_name ((t ++ b) ++ "!") = mkProps a w c true b.
Proof.
  intros Hin Hb.
  rewrite decode_stop_name_by_table. unfold decode_by_table.
  pose proof (find_token_row _ b Hin Hb) as Hf. cbn [fst] in Hf.
  rewrite endswith_app_bang, slice_to_last_app, Hf.
  destruct (String.eqb_spec t "") as [-> | Hne].
  - cbn in Hin.
    repeat (destruct Hin as [Hin | Hin]; [try discriminate Hin |]);
      [| contradiction].
    now inversion Hin.
  - now rewrite slice_from_app.
Qed.

(** A bare token, or the empty string, decodes to an empty base name. *)
Lemma decode_row_alone (row : string * (bool * bool * Z)) :
  In row full_table -> base_name (decode_stop_name (fst row)) = "".
Proof.
  intro Hin. cbn in Hin.
  repeat (destruct Hin as [<- | Hin]; [reflexivity |]). contradiction.
Qed.

(** Every row of the table is found back from its flags. *)
Lemma token_of_flags_row (t : string) (a w : bool) (c : Z) :
  In (t, (a, w, c)) full_table -> token_of_flags a w c = t.
Proof.
  intro Hin. cbn in Hin.
  repeat (destruct Hin as [Hin | Hin]; [now inversion Hin |]). contradiction.
Qed.

Lemma token_of_flags_vocabulary (a w : bool) (c : Z) :
  token_of_flags a w c = "" \/ In (token_of_flags a w c) prefix_tokens.
Proof.
  unfold token_of_flags.
  destruct (find _ token_table) as [[t f] |] eqn:E; [| now left].
  right. apply find_some in E. destruct E as [Hin _].
  apply (in_map fst) in Hin. exact Hin.
Qed.

End DecodeFacts.

(** ** Encoding prepends a row's token and appends the suffix *)

Section EncodeFacts.

Lemma encode_shape (a w : bool) (c : Z) :
  exists row, In row full_table /\
    forall b n, encode_stop_name b a w c n
                = fst row ++ b ++ suffix_of (n >? 2).
Proof.
  unfold encode_stop_name, suffix_of.
  destruct w, a, (c =? 2), (c =? 3); pick_row.
Qed.

Lemma encode_out_of_range (b : string) (a w : bool) (c n : Z) :
  c <> 2 -> c <> 3 ->
  encode_stop_name b a w c n = encode_stop_name b a w 1 n.
Proof.
  intros H2 H3. unfold encode_stop_name.
  apply Z.eqb_neq in H2, H3. rewrite H2, H3. reflexivity.
Qed.

End EncodeFacts.

(** ** Properties of the codec *)

Lemma decode_chi_pages_range (s : string) :
  In (chi_pages (decode_stop_name s)) [1; 2; 3].
Proof.
  rewrite decode_stop_name_by_table. unfold decode_by_table.
  destruct (find _ token_table) as [[t [[a w] c]] |] eqn:E.
  - apply find_some in E. destruct E as [Hin _]. cbn in Hin.
    repeat (destruct Hin as [Hin | Hin]; [inversion Hin; cbn; tauto |]).
    contradiction.
  - cbn. tauto.
Qed.

Lemma gtb_2_false (n : Z) : n <= 2 -> (n >? 2) = false.
Proof. intro H. destruct (Z.gtb_spec n 2); [lia | reflexivity]. Qed.

(** C1. For every flag set with [chinese_pages] in {1,2,3} and every base
    name with no leading prefix token and no trailing ['!'], decoding the
    encoded string gives back the base name. *)
Theorem decode_encode_base_name (b : string) (a w : bool) (c n : Z) :
  In c [1; 2; 3] ->
  no_leading_token b = true ->
  trailing_bang b = false ->
  base_name (decode_stop_name (encode_stop_name b a w c n)) = b.
Proof.
  intros _ Hb Hnb.
  destruct (encode_shape a w c) as [[t [[a' w'] c']] [Hin Henc]].
  rewrite Henc. cbn [fst]. unfold suffix_of.
  destruct (n >? 2).
  - rewrite <- append_assoc.
    now rewrite (decode_row_bang _ _ _ _ _ Hin Hb).
  - rewrite append_nil_r.
    destruct (endswith (t ++ b) "!") eqn:E.
    + destruct b as [|x r].
      * rewrite append_nil_r. exact (decode_row_alone _ Hin).
      * rewrite endswith_app_nonempty in E.
        unfold trailing_bang in Hnb. congruence.
    + now rewrite (decode_row_plain _ _ _ _ _ Hin Hb E).
Qed.

Lemma decode_encode_base_name_witness :
  In 2 [1; 2; 3] /\ no_leading_token "Main St" = true /\
  trailing_bang "Main St" = false /\
  base_name (decode_stop_name (encode_stop_name "Main St" true false 2 3))
  = "Main St".
Proof.
  assert (H2 : In 2 [1; 2; 3]) by (cbn; tauto).
  split; [exact H2 |]. split; [reflexivity |]. split; [reflexivity |].
  apply (decode_encode_base_name "Main St" true false 2 3 H2); reflexivity.
Defined.

(** C2. For each of the 9 rows of the prefix table and [eng_at_count] 0 and
    3, with base name "Main St": encode puts the row's token in front, and
    decoding the result recovers autoskip, width_variant_split,
    chinese_pages, and english_multiline (true iff the count was 3). *)
Theorem encode_decode_table_rows (t : string) (a w : bool) (c n : Z) :
  In (t, (a, w, c)) token_table ->
  In n [0; 3] ->
  let p := decode_stop_name (encode_stop_name "Main St" a w c n) in
  encode_stop_name "Main St" a w c n = t ++ "Main St" ++ suffix_of (n =? 3)
  /\ autoskip p = a /\ w8w6_different p = w /\ chi_pages p = c
  /\ eng_multiline p = (n =? 3).
Proof.
  intros Hin Hn. cbn in Hin, Hn.
  destruct Hn as [<- | [<- | []]];
    repeat (destruct Hin as [Hin | Hin];
            [inversion Hin; subst; vm_compute; repeat split |]);
    contradiction.
Qed.

Lemma encode_decode_table_rows_witness :
  let p := decode_stop_name (encode_stop_name "Main St" true true 3 3) in
  encode_stop_name "Main St" true true 3 3 = "_!~Main St!"
  /\ autoskip p = true /\ w8w6_different p = true /\ chi_pages p = 3
  /\ eng_multiline p = true.
Proof.
  apply (encode_decode_table_rows "_!~" true true 3 3); cbn; tauto.
Defined.

(** C3. [decode("_!~X")] yields autoskip, split, 3 pages and base name "X":
    the tokens are tried in the order "_!~", "_~", "_!!", "_!", "!~", "~",
    "!!", "!", "_" and the first one that matches wins, so "_!" is not
    matched before "_!~". *)
Theorem decode_priority_order :
  decode_stop_name "_!~X" = mkProps true true 3 false "X"
  /\ prefix_tokens = ["_!~"; "_~"; "_!!"; "_!"; "!~"; "~"; "!!"; "!"; "_"]
  /\ startswith "_!~X" "_!" = true
  /\ forall s, decode_stop_name s = decode_by_table s.
Proof.
  repeat split. exact decode_stop_name_by_table.
Qed.

(** C4, as the code has it. For every base name that does not end in ['!'],
    [decode(base_name + "!")] has english_multiline set; its base name is the
    given one whenever the given one has no leading prefix token (the
    trailing ['!'] is stripped once, before any prefix matching). *)
Theorem decode_suffix_round_trip (b : string) :
  trailing_bang b = false ->
  eng_multiline (decode_stop_name (b ++ "!")) = true
  /\ (no_leading_token b = true ->
      base_name (decode_stop_name (b ++ "!")) = b).
Proof.
  intros _. split.
  - rewrite decode_stop_name_by_table. unfold decode_by_table.
    rewrite endswith_app_bang.
    destruct (find _ token_table) as [[t [[a w] c]] |]; reflexivity.
  - intro Hb.
    assert (Hin : In ("", (false, false, 1)) full_table) by (cbn; tauto).
    pose proof (decode_row_bang _ _ _ _ b Hin Hb) as H. cbn [append] in H.
    rewrite H. reflexivity.
Qed.

Lemma decode_suffix_round_trip_witness :
  trailing_bang "Elm St" = false /\ no_leading_token "Elm St" = true /\
  eng_multiline (decode_stop_name ("Elm St" ++ "!")) = true /\
  base_name (decode_stop_name ("Elm St" ++ "!")) = "Elm St".
Proof.
  assert (Ht : trailing_bang "Elm St" = false) by reflexivity.
  split; [exact Ht |]. split; [reflexivity |].
  split.
  - exact (proj1 (decode_suffix_round_trip "Elm St" Ht)).
  - apply (proj2 (decode_suffix_round_trip "Elm St" Ht)). reflexivity.
Defined.

(** C4 as stated fails: "~A" does not end in ['!'], yet decoding "~A!" strips
    the leading token too and returns base name "A". *)
Lemma decode_suffix_round_trip_counterexample :
  trailing_bang "~A" = false
  /\ decode_stop_name ("~A" ++ "!") = mkProps false true 2 true "A"
  /\ base_name (decode_stop_name ("~A" ++ "!")) <> "~A".
Proof.
  repeat split. cbn. discriminate.
Qed.

(** C5. decode is total: every input yields a StopNameProperties whose page
    count is 1, 2 or 3; the empty string decodes to the defaults with an
    empty base name; an input with no leading token and no trailing ['!']
    decodes to the defaults with the input as base name. *)
Theorem decode_total :
  (forall s, exists p, decode_stop_name s = p /\ In (chi_pages p) [1; 2; 3])
  /\ decode_stop_name "" = mkProps false false 1 false ""
  /\ (forall s, no_leading_token s = true -> trailing_bang s = false ->
       decode_stop_name s = mkProps false false 1 false s).
Proof.
  split; [| split].
  - intro s. exists (decode_stop_name s). split; [reflexivity |].
    apply decode_chi_pages_range.
  - reflexivity.
  - intros s Hs He.
    assert (Hin : In ("", (false, false, 1)) full_table) by (cbn; tauto).
    exact (decode_row_plain _ _ _ _ s Hin Hs He).
Qed.

Lemma decode_total_witness :
  no_leading_token "Elm St" = true /\ trailing_bang "Elm St" = false /\
  decode_stop_name "Elm St" = mkProps false false 1 false "Elm St".
Proof.
  split; [reflexivity |]. split; [reflexivity |].
  apply (proj2 (proj2 decode_total) "Elm St"); reflexivity.
Defined.

(** C6. encode is total, and for every [chi_pages] other than 2 and 3 it
    returns the string it returns for [chi_pages = 1]; that string carries
    no page token: it is the base name with ['_'] in front when autoskip is
    set and ['!'] behind when more than two ['@'] are counted. *)
Theorem encode_pages_out_of_range (b : string) (a w : bool) (c n : Z) :
  ~ In c [2; 3] ->
  exists r, encode_stop_name b a w c n = r
            /\ r = encode_stop_name b a w 1 n
            /\ r = (if a then "_" else "") ++ b
                   ++ (if n >? 2 then "!" else "").
Proof.
  intro Hc.
  assert (H2 : c <> 2) by (intro; subst c; apply Hc; cbn; tauto).
  assert (H3 : c <> 3) by (intro; subst c; apply Hc; cbn; tauto).
  eexists. split; [reflexivity |]. split.
  - now apply encode_out_of_range.
  - unfold encode_stop_name.
    apply Z.eqb_neq in H2, H3. rewrite H2, H3.
    destruct w, a; reflexivity.
Qed.

Lemma encode_pages_out_of_range_witness :
  ~ In 4 [2; 3] /\
  exists r, encode_stop_name "Main St" true true 4 3 = r
            /\ r = encode_stop_name "Main St" true true 1 3
            /\ r = "_" ++ "Main St" ++ "!".
Proof.
  assert (H : ~ In 4 [2; 3]) by (cbn; intros [H | [H | []]]; discriminate H).
  split; [exact H |].
  exact (encode_pages_out_of_range "Main St" true true 4 3 H).
Defined.

(** C7. With split set, one page, no autoskip and at most two ['@'], encode
    returns the base name unchanged; for a base name with no leading token
    and no trailing ['!'] decoding that result gives split = false: the
    result decodes to the all-default flags. *)
Theorem split_one_page_lost (b : string) (n : Z) :
  n <= 2 ->
  encode_stop_name b false true 1 n = b
  /\ (no_leading_token b = true -> trailing_bang b = false ->
      w8w6_different (decode_stop_name (encode_stop_name b false true 1 n))
      = false
      /\ decode_stop_name (encode_stop_name b false true 1 n)
         = mkProps false false 1 false b).
Proof.
  intro Hn.
  assert (Henc : encode_stop_name b false true 1 n = b).
  { unfold encode_stop_name. rewrite (gtb_2_false n Hn).
    cbn. apply append_nil_r. }
  split; [exact Henc |].
  intros Hb He. rewrite Henc.
  assert (Hin : In ("", (false, false, 1)) full_table) by (cbn; tauto).
  pose proof (decode_row_plain _ _ _ _ b Hin Hb He) as H. cbn [append] in H.
  rewrite H. split; reflexivity.
Qed.

Lemma split_one_page_lost_witness :
  2 <= 2 /\ encode_stop_name "Elm St" false true 1 2 = "Elm St"
  /\ w8w6_different
       (decode_stop_name (encode_stop_name "Elm St" false true 1 2)) = false.
Proof.
  assert (H : 2 <= 2) by lia.
  split; [exact H |].
  split; [apply (split_one_page_lost "Elm St" 2 H) |].
  apply (proj2 (split_one_page_lost "Elm St" 2 H)); reflexivity.
Defined.

(** C8. [update_stop_name_from_ui("!!Old Town", True, False, 2, "a@b@c@@")]
    returns "_!Old Town!": only the base name "Old Town" is taken from the
    decoded current name, the text has 4 ['@'], and the supplied flags are
    encoded. *)
Theorem update_old_town :
  update_stop_name_from_ui "!!Old Town" true false 2 "a@b@c@@" = "_!Old Town!"
  /\ decode_stop_name "!!Old Town" = mkProps false false 3 false "Old Town"
  /\ count "a@b@c@@" "@" = 4%nat
  /\ encode_stop_name "Old Town" true false 2 4 = "_!Old Town!"
  /\ forall cur a w c e,
       update_stop_name_from_ui cur a w c e
       = encode_stop_name (base_name (decode_stop_name cur)) a w c
           (Z.of_nat (count e "@")).
Proof.
  repeat split.
Qed.

(** C9. decode only removes characters at the two ends: every input is the
    token the table gives for the decoded flags (a word of the vocabulary,
    or nothing), then the decoded base name, then ['!'] exactly when
    english_multiline was decoded. *)
Theorem decode_decomposition (s : string) :
  let p := decode_stop_name s in
  let t := token_of_flags (autoskip p) (w8w6_different p) (chi_pages p) in
  (t = "" \/ In t prefix_tokens)
  /\ s = t ++ base_name p ++ suffix_of (eng_multiline p).
Proof.
  intros p t. split; [apply token_of_flags_vocabulary |].
  subst t p. rewrite decode_stop_name_by_table. unfold decode_by_table.
  set (rest := if endswith s "!" then slice_to_last s else s).
  assert (Hs : s = rest ++ suffix_of (endswith s "!")).
  { subst rest. destruct (endswith s "!") eqn:E; cbn [suffix_of].
    - now apply endswith_split.
    - now rewrite append_nil_r. }
  destruct (find _ token_table) as [[t [[a w] c]] |] eqn:E;
    cbn [autoskip w8w6_different chi_pages base_name eng_multiline].
  - apply find_some in E. destruct E as [Hin Hpre]. cbn [fst] in Hpre.
    assert (Hfull : In (t, (a, w, c)) full_table)
      by (apply in_or_app; now left).
    rewrite (token_of_flags_row _ _ _ _ Hfull).
    rewrite <- append_assoc, <- (startswith_split _ _ Hpre). exact Hs.
  - exact Hs.
Qed.

(** C10. With an empty base name, encoding (no autoskip, no split, 3 pages,
    no ['@']) gives "!!", and decoding "!!" gives 2 pages with
    english_multiline set: the trailing ['!'] is taken as the suffix before
    the prefix is matched.  The empty base name has no leading token and no
    trailing ['!']. *)
Theorem empty_base_three_pages :
  encode_stop_name "" false false 3 0 = "!!"
  /\ decode_stop_name "!!" = mkProps false false 2 true ""
  /\ chi_pages (decode_stop_name (encode_stop_name "" false false 3 0)) = 2
  /\ eng_multiline (decode_stop_name (encode_stop_name "" false false 3 0))
     = true
  /\ no_leading_token "" = true /\ trailing_bang "" = false.
Proof.
  repeat split.
Qed.

Example decode_ex1 :
  decode_stop_name "_!~X" = mkProps true true 3 false "X".
Proof. reflexivity. Qed.

Example decode_ex2 :
  decode_stop_name "!!" = mkProps false false 2 true "".
Proof. reflexivity. Qed.

Example update_ex1 :
  update_stop_name_from_ui "!!Old Town" true false 2 "a@b@c@@" = "_!Old Town!".
Proof. reflexivity. Qed.

(** ** Further properties: round trips, the UI reader and the UI writer *)

Section RoundTrips.

Lemma length_append (s t : string) :
  String.length (s ++ t) = (String.length s + String.length t)%nat.
Proof. induction s as [|c s IH]; simpl; [reflexivity | now rewrite IH]. Qed.

Lemma append_inj_l (t x y : string) : t ++ x = t ++ y -> x = y.
Proof.
  induction t as [|c t IH]; simpl; intro H; [exact H |].
  injection H as H. now apply IH.
Qed.

Lemma append_inj_suffix (m : bool) (x y : string) :
  x ++ suffix_of m = y ++ suffix_of m -> x = y.
Proof.
  destruct m; cbn [suffix_of]; intro H.
  - rewrite <- (slice_to_last_app x "!"), <- (slice_to_last_app y "!").
    now rewrite H.
  - now rewrite !append_nil_r in H.
Qed.

Lemma without_suffix_split (s : string) :
  s = without_suffix s ++ suffix_of (endswith s "!").
Proof.
  unfold without_suffix. destruct (endswith s "!") eqn:E; cbn [suffix_of].
  - now apply endswith_split.
  - now rewrite append_nil_r.
Qed.

Lemma table_flags_row (a w : bool) (c : Z) :
  In (a, w, c) table_flags -> exists t, In (t, (a, w, c)) full_table.
Proof.
  unfold table_flags. rewrite in_map_iff.
  intros [[t f] [Hf Hin]]. cbn [snd] in Hf. subst f. now exists t.
Qed.

(** With the flags of a row, encode puts that row's token in front. *)
Lemma encode_table_row (t : string) (a w : bool) (c : Z) (b : string) (n : Z) :
  In (t, (a, w, c)) full_table ->
  encode_stop_name b a w c n = t ++ b ++ suffix_of (n >? 2).
Proof.
  intro Hin. cbn in Hin.
  repeat (destruct Hin as [Hin | Hin]; [inversion Hin; subst; reflexivity |]).
  contradiction.
Qed.

(** What decode takes apart: the flags are a row of the table, the suffix
    flag is the trailing ['!'], and the row's token followed by the base name
    is the rest of the input. *)
Lemma decode_split (s : string) :
  exists t,
    In (t, (autoskip (decode_stop_name s),
            w8w6_different (decode_stop_name s),
            chi_pages (decode_stop_name s))) full_table
    /\ eng_multiline (decode_stop_name s) = endswith s "!"
    /\ without_suffix s = t ++ base_name (decode_stop_name s).
Proof.
  rewrite decode_stop_name_by_table. unfold decode_by_table.
  fold (without_suffix s).
  destruct (find _ token_table) as [[t [[a w] c]] |] eqn:E;
    cbn [autoskip w8w6_different chi_pages base_name eng_multiline].
  - apply find_some in E. destruct E as [Hin Hpre]. cbn [fst] in Hpre.
    exists t. split; [apply in_or_app; now left |].
    split; [reflexivity |]. now apply startswith_split.
  - exists "". split; [cbn; tauto |]. split; reflexivity.
Qed.

Lemma round_trip_row (t : string) (a w : bool) (c : Z) (b : string) (n : Z) :
  In (t, (a, w, c)) full_table ->
  no_leading_token b = true ->
  (n >? 2) = true \/ (trailing_bang b = false /\ b <> "") ->
  decode_stop_name (encode_stop_name b a w c n) = mkProps a w c (n >? 2) b.
Proof.
  intros Hin Hb Hcase.
  rewrite (encode_table_row _ _ _ _ b n Hin).
  destruct (n >? 2) eqn:En; cbn [suffix_of].
  - rewrite <- append_assoc. exact (decode_row_bang _ _ _ _ _ Hin Hb).
  - destruct Hcase as [Habs | [Hnb Hne]]; [discriminate |].
    rewrite append_nil_r. apply (decode_row_plain _ _ _ _ _ Hin Hb).
    destruct b as [|x r]; [contradiction |].
    rewrite endswith_app_nonempty. exact Hnb.
Qed.

End RoundTrips.

Section CodecRoundTrips.

(** X1. Flags that have a row in the table and a non-empty base name with no
    leading token and no trailing ['!'] survive encode then decode: all five
    decoded fields are the encoded ones. *)
Theorem encode_decode_round_trip (b : string) (a w : bool) (c n : Z) :
  In (a, w, c) table_flags ->
  no_leading_token b = true ->
  trailing_bang b = false ->
  b <> "" ->
  decode_stop_name (encode_stop_name b a w c n) = mkProps a w c (n >? 2) b.
Proof.
  intros Hf Hb Hnb Hne.
  destruct (table_flags_row _ _ _ Hf) as [t Hin].
  apply (round_trip_row t); auto.
Qed.

Lemma encode_decode_round_trip_witness :
  decode_stop_name (encode_stop_name "Elm St" true true 2 1)
  = mkProps true true 2 (1 >? 2) "Elm St".
Proof.
  apply encode_decode_round_trip;
    [cbn; tauto | reflexivity | reflexivity | discriminate].
Defined.

(** X2. When more than two ['@'] are counted, the round trip needs less: any
    base name with no leading token is recovered with its flags, also an
    empty one and one that ends in ['!']. *)
Theorem encode_decode_round_trip_multiline (b : string) (a w : bool) (c n : Z) :
  In (a, w, c) table_flags ->
  no_leading_token b = true ->
  2 < n ->
  decode_stop_name (encode_stop_name b a w c n) = mkProps a w c true b.
Proof.
  intros Hf Hb Hn.
  destruct (table_flags_row _ _ _ Hf) as [t Hin].
  assert (En : (n >? 2) = true) by (destruct (Z.gtb_spec n 2); [reflexivity | lia]).
  rewrite <- En. apply (round_trip_row t); auto.
Qed.

Lemma encode_decode_round_trip_multiline_witness :
  decode_stop_name (encode_stop_name "Stop!" true false 2 3)
  = mkProps true false 2 true "Stop!".
Proof.
  apply encode_decode_round_trip_multiline; [cbn; tauto | reflexivity | lia].
Defined.

(** X3. Decoding loses nothing: encoding the decoded flags and base name,
    with a count on the same side of 2 as the decoded suffix flag, gives the
    input back, for every input string. *)
Theorem encode_decode_identity (s : string) (n : Z) :
  (n >? 2) = eng_multiline (decode_stop_name s) ->
  encode_stop_name (base_name (decode_stop_name s))
    (autoskip (decode_stop_name s)) (w8w6_different (decode_stop_name s))
    (chi_pages (decode_stop_name s)) n = s.
Proof.
  intro Hn.
  destruct (decode_split s) as [t (Hin & Hm & Hrest)].
  rewrite (encode_table_row _ _ _ _ _ n Hin), Hn, Hm.
  rewrite <- append_assoc, <- Hrest. symmetry. apply without_suffix_split.
Qed.

Lemma encode_decode_identity_witness :
  encode_stop_name (base_name (decode_stop_name "_!~X!"))
    (autoskip (decode_stop_name "_!~X!"))
    (w8w6_different (decode_stop_name "_!~X!"))
    (chi_pages (decode_stop_name "_!~X!")) 5 = "_!~X!".
Proof.
  apply (encode_decode_identity "_!~X!" 5). reflexivity.
Defined.

(** X4. The flags decode returns always have a row in the table; in
    particular split is only ever decoded with 2 or 3 pages. *)
Theorem decoded_flags_in_table (s : string) :
  In (autoskip (decode_stop_name s), w8w6_different (decode_stop_name s),
      chi_pages (decode_stop_name s)) table_flags
  /\ (w8w6_different (decode_stop_name s) = true ->
      chi_pages (decode_stop_name s) = 2 \/ chi_pages (decode_stop_name s) = 3).
Proof.
  destruct (decode_split s) as [t (Hin & _ & _)].
  split.
  - unfold table_flags. apply (in_map snd) in Hin. exact Hin.
  - revert Hin.
    generalize (autoskip (decode_stop_name s)),
               (w8w6_different (decode_stop_name s)),
               (chi_pages (decode_stop_name s)).
    intros a w c Hin Hw. subst w. cbn in Hin.
    repeat (destruct Hin as [Hin | Hin];
            [inversion Hin; subst; try discriminate; tauto |]).
    contradiction.
Qed.

(** X5. decode removes at most four characters: the decoded base name is no
    longer than the input and at most four characters shorter. *)
Theorem decode_length (s : string) :
  (String.length (base_name (decode_stop_name s)) <= String.length s
   <= String.length (base_name (decode_stop_name s)) + 4)%nat.
Proof.
  destruct (decode_split s) as [t (Hin & _ & Hrest)].
  pose proof (without_suffix_split s) as Hs.
  apply (f_equal String.length) in Hs. rewrite length_append, Hrest in Hs.
  rewrite length_append in Hs.
  assert (Ht : (String.length t <= 3)%nat).
  { cbn in Hin.
    repeat (destruct Hin as [Hin | Hin]; [inversion Hin; cbn; lia |]).
    contradiction. }
  assert (Hm : (String.length (suffix_of (endswith s "!")) <= 1)%nat)
    by (destruct (endswith s "!"); cbn; lia).
  lia.
Qed.

(** X6. Under the same flags and count, different base names never encode to
    the same string. *)
Theorem encode_injective_base (b b' : string) (a w : bool) (c n : Z) :
  b <> b' ->
  encode_stop_name b a w c n <> encode_stop_name b' a w c n.
Proof.
  intros Hne H. apply Hne.
  destruct (encode_shape a w c) as [row [_ Henc]].
  rewrite !Henc in H.
  apply append_inj_l in H. now apply append_inj_suffix in H.
Qed.

Lemma encode_injective_base_witness :
  encode_stop_name "Elm St" true false 3 0
  <> encode_stop_name "Oak St" true false 3 0.
Proof.
  apply encode_injective_base. discriminate.
Defined.

(** X7. With a page count other than 2 and 3 the split flag has no effect on
    the encoded string, with or without autoskip. *)
Theorem split_ignored_without_page_token (b : string) (a : bool) (c n : Z) :
  c <> 2 -> c <> 3 ->
  encode_stop_name b a true c n = encode_stop_name b a false c n.
Proof.
  intros H2 H3. unfold encode_stop_name.
  apply Z.eqb_neq in H2, H3. rewrite H2, H3.
  destruct a; reflexivity.
Qed.

Lemma split_ignored_without_page_token_witness :
  encode_stop_name "Elm St" true true 1 3
  = encode_stop_name "Elm St" true false 1 3.
Proof.
  apply split_ignored_without_page_token; discriminate.
Defined.

(** X8. An encoding made with more than two ['@'] always decodes with
    english_multiline set, whatever the base name and the flags. *)
Theorem multiline_suffix_detected (b : string) (a w : bool) (c n : Z) :
  2 < n ->
  eng_multiline (decode_stop_name (encode_stop_name b a w c n)) = true.
Proof.
  intro Hn.
  destruct (encode_shape a w c) as [row [_ Henc]].
  destruct (decode_split (encode_stop_name b a w c n)) as [t (_ & Hm & _)].
  rewrite Hm, Henc.
  assert (En : (n >? 2) = true) by (destruct (Z.gtb_spec n 2); [reflexivity | lia]).
  rewrite En. cbn [suffix_of]. rewrite <- append_assoc.
  apply endswith_app_bang.
Qed.

Lemma multiline_suffix_detected_witness :
  eng_multiline (decode_stop_name (encode_stop_name "~A!" false true 7 3))
  = true.
Proof.
  apply multiline_suffix_detected. lia.
Defined.

End CodecRoundTrips.

Section TrailingBang.

(** The first token that matches [t ++ x], for [t] a row's token, is never
    shorter than [t]: the priority list tries longer tokens first. *)
Lemma find_not_shorter (row : string * (bool * bool * Z)) (x : string) :
  In row full_table ->
  match find (fun r => startswith (fst row ++ x) (fst r)) token_table with
  | Some r => (String.length (fst row) <= String.length (fst r))%nat
  | None => fst row = ""
  end.
Proof.
  intro Hin. cbn in Hin.
  repeat (destruct Hin as [<- | Hin];
          [cbn; rewrite ?startswith_nil;
           repeat match goal with
                  | |- context [if startswith ?y ?t then _ else _] =>
                      destruct (startswith y t)
                  | |- context [if ?e then _ else _] => destruct e
                  end; cbn; solve [lia | reflexivity] |]).
  contradiction.
Qed.

(** X9. A base name that ends in ['!'] is not recovered when at most two
    ['@'] are counted: its last character is read as the suffix, so the
    decoded name has english_multiline set and a shorter base name. *)
Theorem trailing_bang_misread (b : string) (a w : bool) (c n : Z) :
  trailing_bang b = true ->
  n <= 2 ->
  eng_multiline (decode_stop_name (encode_stop_name b a w c n)) = true
  /\ (String.length (base_name (decode_stop_name (encode_stop_name b a w c n)))
      < String.length b)%nat.
Proof.
  intros Hb Hn. unfold trailing_bang in Hb.
  destruct (encode_shape a w c) as [row [Hin Henc]].
  rewrite Henc, (gtb_2_false n Hn). cbn [suffix_of]. rewrite append_nil_r.
  apply endswith_split in Hb.
  set (b0 := slice_to_last b) in *.
  assert (Hlen : String.length b = S (String.length b0)).
  { rewrite Hb at 1. rewrite length_append. cbn. lia. }
  rewrite Hb, <- append_assoc.
  rewrite decode_stop_name_by_table. unfold decode_by_table.
  rewrite endswith_app_bang, slice_to_last_app.
  pose proof (find_not_shorter row b0 Hin) as Hfind.
  destruct (find _ token_table) as [[t [[a' w'] c']] |] eqn:E;
    cbn [eng_multiline base_name fst] in *; (split; [reflexivity |]).
  - apply find_some in E. destruct E as [_ Hpre]. cbn [fst] in Hpre.
    apply startswith_split in Hpre.
    apply (f_equal String.length) in Hpre. rewrite !length_append in Hpre.
    rewrite length_append. cbn [String.length]. lia.
  - rewrite Hfind. cbn [append]. rewrite length_append.
    cbn [String.length]. lia.
Qed.

Lemma trailing_bang_misread_witness :
  eng_multiline (decode_stop_name (encode_stop_name "Go!" false false 1 0))
  = true
  /\ (String.length
        (base_name (decode_stop_name (encode_stop_name "Go!" false false 1 0)))
      < String.length "Go!")%nat.
Proof.
  apply trailing_bang_misread; [reflexivity | lia].
Defined.

End TrailingBang.

Section UiReaderWriter.

Lemma decode_append_bang (s : string) :
  trailing_bang s = false ->
  decode_stop_name (s ++ "!") = set_eng_multiline true (decode_stop_name s).
Proof.
  unfold trailing_bang. intro Hs.
  rewrite !decode_stop_name_by_table. unfold decode_by_table.
  rewrite endswith_app_bang, slice_to_last_app, Hs.
  destruct (find _ token_table) as [[t [[a w] c]] |]; reflexivity.
Qed.

(** X10. Appending ['!'] to a name that does not end in ['!'] changes only
    english_multiline in what decode returns, so [get_ui_values_from_name]
    returns the same dictionary for both names. *)
Theorem ui_values_ignore_suffix (s e e' : string) :
  trailing_bang s = false ->
  decode_stop_name (s ++ "!") = set_eng_multiline true (decode_stop_name s)
  /\ get_ui_values_from_name (s ++ "!") e = get_ui_values_from_name s e'.
Proof.
  intro Hs. pose proof (decode_append_bang s Hs) as H.
  split; [exact H |].
  unfold get_ui_values_from_name. rewrite H. reflexivity.
Qed.

Lemma ui_values_ignore_suffix_witness :
  decode_stop_name ("_~Quay" ++ "!")
  = set_eng_multiline true (decode_stop_name "_~Quay")
  /\ get_ui_values_from_name ("_~Quay" ++ "!") "a@b@c@d"
     = get_ui_values_from_name "_~Quay" "".
Proof.
  apply ui_values_ignore_suffix. reflexivity.
Defined.

(** X11. After [update_stop_name_from_ui] with flags that have a row in the
    table, on a current name whose base name is non-empty with no leading
    token and no trailing ['!'], decode returns the new flags, the suffix
    flag of the new English text and the old base name; the UI reader
    returns the new flags and the old base name. *)
Theorem decode_after_update (cur : string) (a w : bool) (c : Z) (e e' : string) :
  In (a, w, c) table_flags ->
  no_leading_token (base_name (decode_stop_name cur)) = true ->
  trailing_bang (base_name (decode_stop_name cur)) = false ->
  base_name (decode_stop_name cur) <> "" ->
  decode_stop_name (update_stop_name_from_ui cur a w c e)
  = mkProps a w c (Z.of_nat (count e "@") >? 2)
      (base_name (decode_stop_name cur))
  /\ get_ui_values_from_name (update_stop_name_from_ui cur a w c e) e'
     = [ ("autoskip", PyBool a); ("w8w6_different", PyBool w);
         ("chi_pages", PyInt c);
         ("base_name", PyStr (base_name (decode_stop_name cur))) ].
Proof.
  intros Hf Hb Hnb Hne.
  destruct (table_flags_row _ _ _ Hf) as [t Hin].
  assert (H : decode_stop_name (update_stop_name_from_ui cur a w c e)
              = mkProps a w c (Z.of_nat (count e "@") >? 2)
                  (base_name (decode_stop_name cur))).
  { unfold update_stop_name_from_ui. apply (round_trip_row t); auto. }
  split; [exact H |].
  unfold get_ui_values_from_name. rewrite H. reflexivity.
Qed.

Lemma decode_after_update_witness :
  decode_stop_name
    (update_stop_name_from_ui "!!Old Town" true false 2 "a@b@c@@")
  = mkProps true false 2 (Z.of_nat (count "a@b@c@@" "@") >? 2)
      (base_name (decode_stop_name "!!Old Town"))
  /\ get_ui_values_from_name
       (update_stop_name_from_ui "!!Old Town" true false 2 "a@b@c@@") ""
     = [ ("autoskip", PyBool true); ("w8w6_different", PyBool false);
         ("chi_pages", PyInt 2);
         ("base_name", PyStr (base_name (decode_stop_name "!!Old Town"))) ].
Proof.
  apply decode_after_update;
    [cbn; tauto | reflexivity | reflexivity | discriminate].
Defined.

(** X12. Writing back the flags the UI reader returned for a name changes
    nothing but the suffix: the result is the name without its trailing
    ['!'], followed by ['!'] exactly when the English text has more than two
    ['@']. *)
Theorem update_with_read_values (s e0 e : string) (a w : bool) (c : Z) :
  dict_get (get_ui_values_from_name s e0) "autoskip" = Some (PyBool a) ->
  dict_get (get_ui_values_from_name s e0) "w8w6_different" = Some (PyBool w) ->
  dict_get (get_ui_values_from_name s e0) "chi_pages" = Some (PyInt c) ->
  update_stop_name_from_ui s a w c e
  = without_suffix s ++ suffix_of (Z.of_nat (count e "@") >? 2).
Proof.
  intros Ha Hw Hc. cbn in Ha, Hw, Hc.
  injection Ha as <-. injection Hw as <-. injection Hc as <-.
  unfold update_stop_name_from_ui.
  destruct (decode_split s) as [t (Hin & _ & Hrest)].
  rewrite (encode_table_row _ _ _ _ _ _ Hin).
  now rewrite <- append_assoc, <- Hrest.
Qed.

Lemma update_with_read_values_witness :
  update_stop_name_from_ui "_!Old Town!" true false 2 "one line"
  = without_suffix "_!Old Town!"
    ++ suffix_of (Z.of_nat (count "one line" "@") >? 2).
Proof.
  apply (update_with_read_values "_!Old Town!" ""); reflexivity.
Defined.

End UiReaderWriter.

Section EdgeCases.

(** X13. With an empty base name and at most two ['@'], a row whose token
    does not end in ['!'] round-trips; a row whose token ends in ['!'] loses
    that character to the suffix test and decodes with english_multiline set
    and one page less. *)
Theorem empty_base_round_trip (t : string) (a w : bool) (c n : Z) :
  In (t, (a, w, c)) full_table ->
  n <= 2 ->
  decode_stop_name (encode_stop_name "" a w c n)
  = if trailing_bang t then mkProps a w (c - 1) true ""
    else mkProps a w c false "".
Proof.
  intros Hin Hn.
  rewrite (encode_table_row _ _ _ _ "" n Hin), (gtb_2_false n Hn).
  cbn in Hin.
  repeat (destruct Hin as [Hin | Hin]; [inversion Hin; subst; reflexivity |]).
  contradiction.
Qed.

Lemma empty_base_round_trip_witness :
  decode_stop_name (encode_stop_name "" true false 3 2)
  = if trailing_bang "_!!" then mkProps true false (3 - 1) true ""
    else mkProps true false 3 false "".
Proof.
  apply empty_base_round_trip; [cbn; tauto | lia].
Defined.

(** The base name comes back from any encoding when it has no leading token
    and no trailing ['!'], whatever the flags. *)
Lemma base_name_recovered (b : string) (a w : bool) (c n : Z) :
  no_leading_token b = true ->
  trailing_bang b = false ->
  base_name (decode_stop_name (encode_stop_name b a w c n)) = b.
Proof.
  intros Hb Hnb.
  destruct (encode_shape a w c) as [[t [[a' w'] c']] [Hin Henc]].
  rewrite Henc. cbn [fst].
  destruct (n >? 2); cbn [suffix_of].
  - rewrite <- append_assoc. now rewrite (decode_row_bang _ _ _ _ _ Hin Hb).
  - rewrite append_nil_r. destruct b as [|x r].
    + rewrite append_nil_r. exact (decode_row_alone _ Hin).
    + rewrite (decode_row_plain _ _ _ _ _ Hin Hb); [reflexivity |].
      now rewrite endswith_app_nonempty.
Qed.

(** X14. A later UI edit overrides an earlier one: when the base name of the
    current name has no leading token and no trailing ['!'], updating twice
    gives what the second update alone gives; in particular repeating an
    update changes nothing. *)
Theorem update_overrides (cur : string) (a w : bool) (c : Z) (e : string)
    (a' w' : bool) (c' : Z) (e' : string) :
  no_leading_token (base_name (decode_stop_name cur)) = true ->
  trailing_bang (base_name (decode_stop_name cur)) = false ->
  update_stop_name_from_ui (update_stop_name_from_ui cur a w c e) a' w' c' e'
  = update_stop_name_from_ui cur a' w' c' e'.
Proof.
  intros Hb Hnb. unfold update_stop_name_from_ui.
  now rewrite (base_name_recovered _ a w c _ Hb Hnb).
Qed.

Lemma update_overrides_witness :
  update_stop_name_from_ui
    (update_stop_name_from_ui "!!Old Town" true false 2 "a@b@c@@")
    false true 3 ""
  = update_stop_name_from_ui "!!Old Town" false true 3 "".
Proof.
  apply update_overrides; reflexivity.
Defined.

End EdgeCases.
